(** * libnds inter-processor FIFO: message codec and exit coordinator

    A shallow embedding of [source/common/fifo_private.h] (the bit layout of
    the 32-bit FIFO blocks exchanged by the ARM9 and the ARM7) and of
    [source/common/libnds_exit.c] (the exit path that asks the other CPU for
    a reset), with the properties of the wire format proved over it.

    A [uint32_t] is a [Z] in the range [0, 2^32); every C operation that can
    leave the range ([<<], [~]) is followed by an explicit reduction modulo
    [2^32].  A [void *] is the 32-bit integer it converts to on the ARM
    targets of the library. *)

From Stdlib Require Import ZArith Bool List Lia Btauto.
Import ListNotations.

Local Open Scope Z_scope.
Local Open Scope bool_scope.

(** ** Machine integers *)

(** Values of type [uint32_t]. *)
Definition uint32 (x : Z) : Prop := 0 <= x < 2 ^ 32.

(** Conversion to [uint32_t]: reduction modulo [2^32]. *)
Definition to_uint32 (x : Z) : Z := x mod 2 ^ 32.

(** C's [x != 0] and [x == y] on integers, as [bool]. *)
Definition nonzero (x : Z) : bool := negb (x =? 0).

(** ** fifo_private.h: the header block of a FIFO message *)

(** Maximum number of bytes that can be sent in a fifo message. *)
Definition FIFO_MAX_DATA_BYTES : Z := 128.

Definition FIFO_CHANNEL_BITS : Z := 4.

Definition FIFO_NUM_CHANNELS : Z := Z.shiftl 1 FIFO_CHANNEL_BITS.
Definition FIFO_CHANNEL_SHIFT : Z := 32 - FIFO_CHANNEL_BITS.
Definition FIFO_CHANNEL_MASK : Z := Z.shiftl 1 FIFO_CHANNEL_BITS - 1.

Definition FIFO_ADDRESSBIT_SHIFT : Z := FIFO_CHANNEL_SHIFT - 1.
Definition FIFO_ADDRESSBIT : Z := Z.shiftl 1 FIFO_ADDRESSBIT_SHIFT.

Definition FIFO_IMMEDIATEBIT_SHIFT : Z := FIFO_ADDRESSBIT_SHIFT - 1.
Definition FIFO_IMMEDIATEBIT : Z := Z.shiftl 1 FIFO_IMMEDIATEBIT_SHIFT.

Definition FIFO_EXTRABIT_SHIFT : Z := FIFO_IMMEDIATEBIT_SHIFT - 1.
Definition FIFO_EXTRABIT : Z := Z.shiftl 1 FIFO_EXTRABIT_SHIFT.

Definition FIFO_UNPACK_CHANNEL (dataword : Z) : Z :=
  Z.land (Z.shiftr dataword FIFO_CHANNEL_SHIFT) FIFO_CHANNEL_MASK.

(** ** 32-bit immediate value messages *)

Definition FIFO_VALUE32_MASK : Z := FIFO_EXTRABIT - 1.

Definition FIFO_IS_VALUE32 (dataword : Z) : bool :=
  (Z.land dataword FIFO_ADDRESSBIT =? 0) &&
  nonzero (Z.land dataword FIFO_IMMEDIATEBIT).

(** [~FIFO_VALUE32_MASK] is computed on [int] and converted to [uint32_t] by
    the [&] with [value32]. *)
Definition FIFO_VALUE32_NEEDEXTRA (value32 : Z) : bool :=
  nonzero (Z.land value32 (to_uint32 (Z.lnot FIFO_VALUE32_MASK))).

Definition FIFO_UNPACK_VALUE32_NEEDEXTRA (dataword : Z) : bool :=
  nonzero (Z.land dataword FIFO_EXTRABIT).

Definition FIFO_PACK_VALUE32 (channel value32 : Z) : Z :=
  Z.lor (Z.lor (to_uint32 (Z.shiftl channel FIFO_CHANNEL_SHIFT)) FIFO_IMMEDIATEBIT)
        (Z.land value32 FIFO_VALUE32_MASK).

Definition FIFO_UNPACK_VALUE32_NOEXTRA (dataword : Z) : Z :=
  Z.land dataword FIFO_VALUE32_MASK.

Definition FIFO_PACK_VALUE32_EXTRA (channel : Z) : Z :=
  Z.lor (Z.lor (to_uint32 (Z.shiftl channel FIFO_CHANNEL_SHIFT)) FIFO_IMMEDIATEBIT)
        FIFO_EXTRABIT.

(** ** Address messages *)

Definition FIFO_ADDRESSDATA_SHIFT : Z := 0.
Definition FIFO_MINADDRESSDATABITS : Z := 24.
Definition FIFO_ADDRESSDATA_MASK : Z := 0x00FFFFFF.
Definition FIFO_ADDRESSBASE : Z := 0x02000000.
Definition FIFO_ADDRESSCOMPATIBLE : Z := 0xFF000000.

Definition FIFO_PACK_ADDRESS (channel address : Z) : Z :=
  Z.lor (Z.lor (to_uint32 (Z.shiftl channel FIFO_CHANNEL_SHIFT)) FIFO_ADDRESSBIT)
        (Z.land (Z.shiftr address FIFO_ADDRESSDATA_SHIFT) FIFO_ADDRESSDATA_MASK).

Definition FIFO_IS_ADDRESS_COMPATIBLE (address : Z) : bool :=
  Z.land address FIFO_ADDRESSCOMPATIBLE =? FIFO_ADDRESSBASE.

Definition FIFO_IS_ADDRESS (dataword : Z) : bool :=
  nonzero (Z.land dataword FIFO_ADDRESSBIT).

Definition FIFO_UNPACK_ADDRESS (dataword : Z) : Z :=
  Z.lor (to_uint32 (Z.shiftl (Z.land dataword FIFO_ADDRESSDATA_MASK)
                             FIFO_ADDRESSDATA_SHIFT))
        FIFO_ADDRESSBASE.

(** ** Data messages *)

Definition FIFO_PACK_DATAMSG_HEADER (channel numbytes : Z) : Z :=
  Z.lor (to_uint32 (Z.shiftl channel FIFO_CHANNEL_SHIFT))
        (Z.land numbytes FIFO_VALUE32_MASK).

Definition FIFO_IS_DATA (dataword : Z) : bool :=
  Z.land dataword (Z.lor FIFO_ADDRESSBIT FIFO_IMMEDIATEBIT) =? 0.

Definition FIFO_UNPACK_DATALENGTH (dataword : Z) : Z :=
  Z.land dataword FIFO_VALUE32_MASK.

(** ** Special commands *)

Definition FIFO_IS_SPECIAL_COMMAND (dataword : Z) : bool :=
  nonzero (Z.land dataword FIFO_ADDRESSBIT) &&
  nonzero (Z.land dataword FIFO_IMMEDIATEBIT).

Definition FIFO_SPECIAL_COMMAND_MASK : Z := 0x00FFFFFF.

Definition FIFO_ARM9_REQUESTS_ARM7_RESET : Z := 0x4000C.
Definition FIFO_ARM7_REQUESTS_ARM9_RESET : Z := 0x4000B.

(** ** Classification of a received block *)

Inductive MessageKind : Type :=
| SmallImmediate
| LargeImmediateHeader
| Address
| DataHeader
| SpecialCommand.

(** Modelled from the spec: [classify], the receive-side decision function
    (the dispatch of the FIFO receive handler is not part of
    fifo_private.h).  It applies the predicates of the header in the
    precedence the specification fixes: the special-command test first, then
    the single-bit tests.  A block that no predicate accepts yields [None]. *)
Definition classify (dataword : Z) : option MessageKind :=
  if FIFO_IS_SPECIAL_COMMAND dataword then Some SpecialCommand
  else if FIFO_IS_ADDRESS dataword then Some Address
  else if FIFO_IS_VALUE32 dataword then
    Some (if FIFO_UNPACK_VALUE32_NEEDEXTRA dataword
          then LargeImmediateHeader else SmallImmediate)
  else if FIFO_IS_DATA dataword then Some DataHeader
  else None.

(** Modelled from the spec: the table of message kinds, one row per kind,
    read on the address bit, the immediate bit and the extra bit of the
    block (the table is the layout comment of fifo_private.h, lines 66-86). *)
Definition kind_row (k : MessageKind) (dataword : Z) : bool :=
  let addr := Z.testbit dataword FIFO_ADDRESSBIT_SHIFT in
  let imm := Z.testbit dataword FIFO_IMMEDIATEBIT_SHIFT in
  let extra := Z.testbit dataword FIFO_EXTRABIT_SHIFT in
  match k with
  | DataHeader => negb addr && negb imm
  | SmallImmediate => negb addr && imm && negb extra
  | LargeImmediateHeader => negb addr && imm && extra
  | Address => addr && negb imm
  | SpecialCommand => addr && imm
  end.

(** ** libnds_exit.c: the exit path *)

(** The CPU the file is compiled for ([#ifdef ARM9] / [#ifdef ARM7]). *)
Inductive cpu : Type := ARM9 | ARM7.

(** The calls [__libnds_exit] makes to code outside the file, with their
    arguments.  [wordlist] is [None] for a [NULL] pointer. *)
Inductive call : Type :=
| systemErrorExit (rc : Z)
| transferRegion
| arm9reboot
| fifoInternalSend (firstword extrawordcount : Z) (wordlist : option (list Z))
| systemShutDown.

(** Program points of [__libnds_exit]: the test of [rc], the load of the
    boot stub, the test of its signature, and the final [while(1);]. *)
Inductive point : Type :=
| at_rc_test
| at_bootcode_load
| at_bootsig_test
| at_spin.

Record state : Type := mkState {
  pc : point;
  calls : list call   (* the calls made so far, oldest first *)
}.

Section LibndsExit.

(** The signature constant of nds/system.h, which is not part of the
    modelled files. *)
Variable BOOTSIG : Z.

(** What the run depends on: the CPU of the build, the exit code, and the
    [bootsig] field of the boot stub found in the transfer region. *)
Variable self : cpu.
Variable rc : Z.
Variable bootsig : Z.

Definition reset_cmd : Z :=
  Z.lor (Z.lor FIFO_ADDRESSBIT FIFO_IMMEDIATEBIT) FIFO_ARM7_REQUESTS_ARM9_RESET.

(** One step of [__libnds_exit].  Every external call returns to the
    caller; [while(1);] steps to itself without calling anything. *)
Definition step (s : state) : state :=
  match pc s with
  | at_rc_test =>
      if nonzero rc
      then mkState at_bootcode_load (calls s ++ [systemErrorExit rc])
      else mkState at_bootcode_load (calls s)
  | at_bootcode_load =>
      mkState at_bootsig_test (calls s ++ [transferRegion])
  | at_bootsig_test =>
      if bootsig =? BOOTSIG
      then match self with
           | ARM9 => mkState at_spin (calls s ++ [arm9reboot])
           | ARM7 => mkState at_spin (calls s ++ [fifoInternalSend reset_cmd 0 None])
           end
      else mkState at_spin (calls s ++ [systemShutDown])
  | at_spin => mkState at_spin (calls s)
  end.

Fixpoint run (n : nat) (s : state) : state :=
  match n with
  | O => s
  | S n' => run n' (step s)
  end.

(** The state of [__libnds_exit(rc)] after [n] steps from its entry. *)
Definition __libnds_exit (n : nat) : state :=
  run n (mkState at_rc_test []).

End LibndsExit.

(** The words handed to [fifoInternalSend] in a list of calls, in order. *)
Fixpoint sent_words (l : list call) : list Z :=
  match l with
  | [] => []
  | fifoInternalSend firstword _ _ :: l' => firstword :: sent_words l'
  | _ :: l' => sent_words l'
  end.

(** ** Bit-level facts about the layout *)

Lemma channel_shift_val : FIFO_CHANNEL_SHIFT = 28.
Proof. reflexivity. Qed.

Lemma channel_mask_ones : FIFO_CHANNEL_MASK = Z.ones 4.
Proof. reflexivity. Qed.

Lemma addressbit_pow2 : FIFO_ADDRESSBIT = 2 ^ 27.
Proof. reflexivity. Qed.

Lemma immediatebit_pow2 : FIFO_IMMEDIATEBIT = 2 ^ 26.
Proof. reflexivity. Qed.

Lemma extrabit_pow2 : FIFO_EXTRABIT = 2 ^ 25.
Proof. reflexivity. Qed.

Lemma value32_mask_ones : FIFO_VALUE32_MASK = Z.ones 25.
Proof. reflexivity. Qed.

Lemma addressdata_mask_ones : FIFO_ADDRESSDATA_MASK = Z.ones 24.
Proof. reflexivity. Qed.

(** Testing one bit with a mask: [x & 2^n] is non-zero exactly when bit [n]
    of [x] is set. *)
Lemma nonzero_land_pow2 (x n : Z) :
  0 <= n -> nonzero (Z.land x (2 ^ n)) = Z.testbit x n.
Proof.
  intros Hn. unfold nonzero.
  destruct (Z.testbit x n) eqn:Hb.
  - destruct (Z.eqb_spec (Z.land x (2 ^ n)) 0) as [E|]; [|reflexivity].
    assert (Z.testbit (Z.land x (2 ^ n)) n = true) as Ht.
    { rewrite Z.land_spec, Hb, Z.pow2_bits_true by lia. reflexivity. }
    rewrite E, Z.bits_0 in Ht. discriminate.
  - replace (Z.land x (2 ^ n)) with 0; [reflexivity|].
    symmetry. apply Z.bits_inj'. intros i Hi.
    rewrite Z.land_spec, Z.bits_0, Z.pow2_bits_eqb by lia.
    destruct (Z.eqb_spec n i); subst; rewrite ?Hb, ?andb_false_r; reflexivity.
Qed.

Lemma is_address_bit (w : Z) : FIFO_IS_ADDRESS w = Z.testbit w 27.
Proof.
  unfold FIFO_IS_ADDRESS. rewrite addressbit_pow2.
  apply nonzero_land_pow2. lia.
Qed.

Lemma needextra_bit (w : Z) : FIFO_UNPACK_VALUE32_NEEDEXTRA w = Z.testbit w 25.
Proof.
  unfold FIFO_UNPACK_VALUE32_NEEDEXTRA. rewrite extrabit_pow2.
  apply nonzero_land_pow2. lia.
Qed.

Lemma is_special_command_bits (w : Z) :
  FIFO_IS_SPECIAL_COMMAND w = Z.testbit w 27 && Z.testbit w 26.
Proof.
  unfold FIFO_IS_SPECIAL_COMMAND.
  rewrite addressbit_pow2, immediatebit_pow2, !nonzero_land_pow2 by lia.
  reflexivity.
Qed.

Lemma is_value32_bits (w : Z) :
  FIFO_IS_VALUE32 w = negb (Z.testbit w 27) && Z.testbit w 26.
Proof.
  unfold FIFO_IS_VALUE32.
  rewrite addressbit_pow2, immediatebit_pow2.
  rewrite <- (nonzero_land_pow2 w 27), <- (nonzero_land_pow2 w 26) by lia.
  unfold nonzero. rewrite negb_involutive. reflexivity.
Qed.

Lemma is_data_bits (w : Z) :
  FIFO_IS_DATA w = negb (Z.testbit w 27) && negb (Z.testbit w 26).
Proof.
  unfold FIFO_IS_DATA. rewrite addressbit_pow2, immediatebit_pow2.
  rewrite Z.land_lor_distr_r.
  rewrite <- (nonzero_land_pow2 w 27), <- (nonzero_land_pow2 w 26) by lia.
  unfold nonzero. rewrite !negb_involutive.
  destruct (Z.eqb_spec (Z.lor (Z.land w (2 ^ 27)) (Z.land w (2 ^ 26))) 0) as [E|E].
  - apply Z.lor_eq_0_iff in E. destruct E as [-> ->]. reflexivity.
  - destruct (Z.eqb_spec (Z.land w (2 ^ 27)) 0) as [E1|]; [|reflexivity].
    destruct (Z.eqb_spec (Z.land w (2 ^ 26)) 0) as [E2|]; [|reflexivity].
    rewrite E1, E2 in E. now elim E.
Qed.

(** A value below [2^n] has no bit at position [n] or above. *)
Lemma small_bits_high (v n i : Z) :
  0 <= v < 2 ^ n -> 0 <= n <= i -> Z.testbit v i = false.
Proof.
  intros Hv Hi. rewrite <- (Z.mod_small v (2 ^ n)) by lia.
  apply Z.mod_pow2_bits_high. lia.
Qed.

Ltac split_cmp :=
  repeat match goal with
         | |- context [Z.ltb ?a ?b] => destruct (Z.ltb_spec a b)
         | |- context [Z.leb ?a ?b] => destruct (Z.leb_spec a b)
         | |- context [Z.eqb ?a ?b] => destruct (Z.eqb_spec a b)
         end.

(** [uint32] values are the fixed points of the conversion. *)
Lemma uint32_land_ones (x : Z) : uint32 x <-> Z.land x (Z.ones 32) = x.
Proof.
  unfold uint32. rewrite Z.land_ones by lia. split.
  - intros H. apply Z.mod_small. exact H.
  - intros H. rewrite <- H. apply Z.mod_pos_bound. lia.
Qed.

Lemma uint32_to_uint32 (x : Z) : uint32 (to_uint32 x).
Proof. unfold uint32, to_uint32. apply Z.mod_pos_bound. lia. Qed.

Lemma uint32_lor (x y : Z) : uint32 x -> uint32 y -> uint32 (Z.lor x y).
Proof.
  rewrite !uint32_land_ones. intros Hx Hy.
  rewrite Z.land_lor_distr_l, Hx, Hy. reflexivity.
Qed.

Lemma uint32_land_r (x y : Z) : uint32 y -> uint32 (Z.land x y).
Proof.
  rewrite !uint32_land_ones. intros Hy.
  rewrite <- Z.land_assoc, Hy. reflexivity.
Qed.

(** The channel field [channel << FIFO_CHANNEL_SHIFT], computed on
    [uint32_t]: bits 31..28 hold the low four bits of [channel], every other
    bit is clear, whatever [channel] is. *)
Lemma channel_field_testbit (c i : Z) :
  0 <= i ->
  Z.testbit (to_uint32 (Z.shiftl c FIFO_CHANNEL_SHIFT)) i =
  (28 <=? i) && (i <? 32) && Z.testbit c (i - 28).
Proof.
  intros Hi. unfold to_uint32. rewrite channel_shift_val.
  rewrite Z.testbit_mod_pow2 by lia. rewrite Z.shiftl_spec by lia.
  split_cmp; simpl; try reflexivity.
  apply Z.testbit_neg_r. lia.
Qed.

Lemma pack_value32_testbit (c v i : Z) :
  0 <= i ->
  Z.testbit (FIFO_PACK_VALUE32 c v) i =
  (28 <=? i) && (i <? 32) && Z.testbit c (i - 28)
  || (i =? 26) || (i <? 25) && Z.testbit v i.
Proof.
  intros Hi. unfold FIFO_PACK_VALUE32.
  rewrite !Z.lor_spec, channel_field_testbit by lia.
  rewrite immediatebit_pow2, value32_mask_ones.
  rewrite Z.land_spec, Z.pow2_bits_eqb, Z.testbit_ones_nonneg by lia.
  rewrite (Z.eqb_sym 26 i), (andb_comm (Z.testbit v i)). reflexivity.
Qed.

Lemma pack_value32_extra_testbit (c i : Z) :
  0 <= i ->
  Z.testbit (FIFO_PACK_VALUE32_EXTRA c) i =
  (28 <=? i) && (i <? 32) && Z.testbit c (i - 28) || (i =? 26) || (i =? 25).
Proof.
  intros Hi. unfold FIFO_PACK_VALUE32_EXTRA.
  rewrite !Z.lor_spec, channel_field_testbit by lia.
  rewrite immediatebit_pow2, extrabit_pow2, !Z.pow2_bits_eqb by lia.
  rewrite (Z.eqb_sym 26 i), (Z.eqb_sym 25 i). reflexivity.
Qed.

Lemma pack_address_testbit (c a i : Z) :
  0 <= i ->
  Z.testbit (FIFO_PACK_ADDRESS c a) i =
  (28 <=? i) && (i <? 32) && Z.testbit c (i - 28)
  || (i =? 27) || (i <? 24) && Z.testbit a i.
Proof.
  intros Hi. unfold FIFO_PACK_ADDRESS, FIFO_ADDRESSDATA_SHIFT.
  rewrite !Z.lor_spec, channel_field_testbit by lia.
  rewrite addressbit_pow2, addressdata_mask_ones, Z.shiftr_0_r.
  rewrite Z.land_spec, Z.pow2_bits_eqb, Z.testbit_ones_nonneg by lia.
  rewrite (Z.eqb_sym 27 i), (andb_comm (Z.testbit a i)). reflexivity.
Qed.

Lemma pack_datamsg_header_testbit (c n i : Z) :
  0 <= i ->
  Z.testbit (FIFO_PACK_DATAMSG_HEADER c n) i =
  (28 <=? i) && (i <? 32) && Z.testbit c (i - 28) || (i <? 25) && Z.testbit n i.
Proof.
  intros Hi. unfold FIFO_PACK_DATAMSG_HEADER.
  rewrite !Z.lor_spec, channel_field_testbit by lia.
  rewrite value32_mask_ones.
  rewrite Z.land_spec, Z.testbit_ones_nonneg by lia.
  rewrite (andb_comm (Z.testbit n i)). reflexivity.
Qed.

(** The encoders return [uint32_t] values. *)
Lemma pack_value32_uint32 (c v : Z) : uint32 (FIFO_PACK_VALUE32 c v).
Proof.
  unfold FIFO_PACK_VALUE32.
  repeat apply uint32_lor; try apply uint32_to_uint32.
  - unfold uint32. rewrite immediatebit_pow2. lia.
  - apply uint32_land_r. unfold uint32. rewrite value32_mask_ones. cbn. lia.
Qed.

(** What the small-immediate decoder returns on an encoded block. *)
Lemma unpack_pack_value32 (c v : Z) :
  FIFO_UNPACK_VALUE32_NOEXTRA (FIFO_PACK_VALUE32 c v) = v mod 2 ^ 25.
Proof.
  unfold FIFO_UNPACK_VALUE32_NOEXTRA. rewrite value32_mask_ones.
  rewrite <- (Z.land_ones v 25) by lia.
  apply Z.bits_inj'. intros i Hi.
  rewrite !Z.land_spec, pack_value32_testbit, Z.testbit_ones_nonneg by lia.
  split_cmp; try lia; rewrite ?(Z.testbit_neg_r c (i - 28)) by lia; btauto.
Qed.

Lemma unpack_channel_pack_value32 (c v : Z) :
  FIFO_UNPACK_CHANNEL (FIFO_PACK_VALUE32 c v) = c mod 2 ^ 4.
Proof.
  unfold FIFO_UNPACK_CHANNEL. rewrite channel_mask_ones, channel_shift_val.
  rewrite <- (Z.land_ones c 4) by lia.
  apply Z.bits_inj'. intros i Hi.
  rewrite !Z.land_spec, Z.shiftr_spec, pack_value32_testbit,
    Z.testbit_ones_nonneg by lia.
  replace (i + 28 - 28) with i by lia.
  split_cmp; try lia; btauto.
Qed.

(** ** Immediate values *)

(** C2. Round trip of small immediates: for a channel [c] in 0..15 and a
    value [v] below [2^25], the decoder returns [v] from the packed block,
    the channel read from the block is [c], and the block is an immediate
    block ([FIFO_IS_VALUE32]) whose extra bit is clear. *)
Theorem small_immediate_roundtrip (c v : Z) :
  0 <= c <= 15 ->
  0 <= v < 2 ^ 25 ->
  FIFO_UNPACK_VALUE32_NOEXTRA (FIFO_PACK_VALUE32 c v) = v /\
  FIFO_UNPACK_CHANNEL (FIFO_PACK_VALUE32 c v) = c /\
  FIFO_IS_VALUE32 (FIFO_PACK_VALUE32 c v) = true /\
  FIFO_UNPACK_VALUE32_NEEDEXTRA (FIFO_PACK_VALUE32 c v) = false.
Proof.
  intros Hc Hv. repeat split.
  - rewrite unpack_pack_value32. apply Z.mod_small. exact Hv.
  - rewrite unpack_channel_pack_value32. apply Z.mod_small.
    change (2 ^ 4) with 16. lia.
  - rewrite is_value32_bits, !pack_value32_testbit by lia. reflexivity.
  - rewrite needextra_bit, pack_value32_testbit by lia. reflexivity.
Qed.

Lemma small_immediate_roundtrip_witness :
  FIFO_UNPACK_VALUE32_NOEXTRA (FIFO_PACK_VALUE32 3 42) = 42 /\
  FIFO_UNPACK_CHANNEL (FIFO_PACK_VALUE32 3 42) = 3 /\
  FIFO_IS_VALUE32 (FIFO_PACK_VALUE32 3 42) = true /\
  FIFO_UNPACK_VALUE32_NEEDEXTRA (FIFO_PACK_VALUE32 3 42) = false.
Proof. apply (small_immediate_roundtrip 3 42); lia. Defined.

(** C8. Over-width immediates are truncated silently: for a channel [c] in
    0..15 and any 32-bit [v], [FIFO_PACK_VALUE32] returns a 32-bit block
    (there is no failure result), and the decoder returns [v mod 2^25] from
    it; when [v] does not fit ([FIFO_VALUE32_NEEDEXTRA v]), the decoded value
    differs from [v]: the high 7 bits are lost. *)
Theorem pack_value32_truncates (c v : Z) :
  0 <= c <= 15 ->
  uint32 v ->
  uint32 (FIFO_PACK_VALUE32 c v) /\
  FIFO_UNPACK_VALUE32_NOEXTRA (FIFO_PACK_VALUE32 c v) = v mod 2 ^ 25 /\
  FIFO_UNPACK_VALUE32_NOEXTRA (FIFO_PACK_VALUE32 c v) = Z.land v (Z.ones 25) /\
  (2 ^ 25 <= v -> FIFO_UNPACK_VALUE32_NOEXTRA (FIFO_PACK_VALUE32 c v) <> v).
Proof.
  intros Hc Hv. repeat split.
  - apply pack_value32_uint32.
  - apply pack_value32_uint32.
  - apply unpack_pack_value32.
  - rewrite Z.land_ones by lia. apply unpack_pack_value32.
  - intros Hbig. rewrite unpack_pack_value32.
    pose proof (Z.mod_pos_bound v (2 ^ 25)). lia.
Qed.

Lemma pack_value32_truncates_witness :
  uint32 (FIFO_PACK_VALUE32 5 0xFFFFFFFF) /\
  FIFO_UNPACK_VALUE32_NOEXTRA (FIFO_PACK_VALUE32 5 0xFFFFFFFF) = 0xFFFFFFFF mod 2 ^ 25 /\
  FIFO_UNPACK_VALUE32_NOEXTRA (FIFO_PACK_VALUE32 5 0xFFFFFFFF) =
    Z.land 0xFFFFFFFF (Z.ones 25) /\
  (2 ^ 25 <= 0xFFFFFFFF ->
   FIFO_UNPACK_VALUE32_NOEXTRA (FIFO_PACK_VALUE32 5 0xFFFFFFFF) <> 0xFFFFFFFF).
Proof. apply (pack_value32_truncates 5 0xFFFFFFFF); unfold uint32; lia. Defined.

(** Masking a 32-bit value with the bits [n..31] keeps its multiple of
    [2^n]. *)
Lemma land_high_mask (x n : Z) :
  0 <= n <= 32 ->
  uint32 x ->
  Z.land x (Z.shiftl (Z.ones (32 - n)) n) = 2 ^ n * (x / 2 ^ n).
Proof.
  intros Hn Hx.
  rewrite Z.mul_comm, <- Z.shiftl_mul_pow2, <- Z.shiftr_div_pow2 by lia.
  apply Z.bits_inj'. intros i Hi.
  rewrite Z.land_spec, !Z.shiftl_spec by lia.
  destruct (Z.ltb_spec i n) as [Hlt|Hge].
  - rewrite !(Z.testbit_neg_r _ (i - n)) by lia. btauto.
  - rewrite Z.shiftr_spec, Z.testbit_ones_nonneg by lia.
    replace (i - n + n) with i by lia.
    destruct (Z.ltb_spec (i - n) (32 - n)).
    + btauto.
    + rewrite (small_bits_high x 32 i) by (unfold uint32 in Hx; lia).
      reflexivity.
Qed.

Lemma value32_needextra_div (v : Z) :
  uint32 v -> FIFO_VALUE32_NEEDEXTRA v = nonzero (v / 2 ^ 25).
Proof.
  intros Hv. unfold FIFO_VALUE32_NEEDEXTRA.
  change (to_uint32 (Z.lnot FIFO_VALUE32_MASK)) with (Z.shiftl (Z.ones (32 - 25)) 25).
  rewrite land_high_mask by (assumption || lia).
  unfold nonzero. f_equal.
  destruct (Z.eqb_spec (v / 2 ^ 25) 0) as [->|Hne]; [reflexivity|].
  apply Z.eqb_neq. lia.
Qed.

(** C3. The fit test: for every 32-bit [v], [FIFO_VALUE32_NEEDEXTRA v] is
    false exactly when [v < 2^25]; it is true exactly when the high 7 bits
    of [v] (bits 31..25) are not all zero, and so whenever some bit at
    position 25 or above is set.  At the boundary it is false on [2^25 - 1]
    and true on [2^25].  The test looks at the bits only: [0xFFFFFFFF], the
    pattern of [-1], needs the extra word. *)
Theorem value32_needextra_fit (v : Z) :
  uint32 v ->
  (FIFO_VALUE32_NEEDEXTRA v = false <-> v < 2 ^ 25) /\
  (FIFO_VALUE32_NEEDEXTRA v = true <-> Z.shiftr v 25 <> 0) /\
  (forall i, 25 <= i -> Z.testbit v i = true -> FIFO_VALUE32_NEEDEXTRA v = true) /\
  FIFO_VALUE32_NEEDEXTRA (2 ^ 25 - 1) = false /\
  FIFO_VALUE32_NEEDEXTRA (2 ^ 25) = true /\
  FIFO_VALUE32_NEEDEXTRA 0xFFFFFFFF = true.
Proof.
  intros Hv.
  assert (Hdiv : v / 2 ^ 25 = 0 <-> v < 2 ^ 25).
  { unfold uint32 in Hv. rewrite Z.div_small_iff by lia. lia. }
  assert (Hfalse : FIFO_VALUE32_NEEDEXTRA v = false <-> v < 2 ^ 25).
  { rewrite value32_needextra_div by assumption. unfold nonzero.
    rewrite negb_false_iff, Z.eqb_eq. exact Hdiv. }
  assert (Htrue : FIFO_VALUE32_NEEDEXTRA v = true <-> 2 ^ 25 <= v).
  { rewrite <- not_false_iff_true, Hfalse. lia. }
  split; [exact Hfalse|]. split; [|split; [|repeat split]].
  - rewrite Htrue, Z.shiftr_div_pow2 by lia. rewrite Hdiv. lia.
  - intros i Hi Hbit. apply Htrue.
    destruct (Z.lt_ge_cases v (2 ^ 25)) as [Hlt|Hge]; [|exact Hge].
    rewrite (small_bits_high v 25 i) in Hbit by (unfold uint32 in Hv; lia).
    discriminate.
Qed.

Lemma value32_needextra_fit_witness :
  (FIFO_VALUE32_NEEDEXTRA 0x2000001 = false <-> 0x2000001 < 2 ^ 25) /\
  (FIFO_VALUE32_NEEDEXTRA 0x2000001 = true <-> Z.shiftr 0x2000001 25 <> 0) /\
  (forall i, 25 <= i -> Z.testbit 0x2000001 i = true ->
             FIFO_VALUE32_NEEDEXTRA 0x2000001 = true) /\
  FIFO_VALUE32_NEEDEXTRA (2 ^ 25 - 1) = false /\
  FIFO_VALUE32_NEEDEXTRA (2 ^ 25) = true /\
  FIFO_VALUE32_NEEDEXTRA 0xFFFFFFFF = true.
Proof. apply (value32_needextra_fit 0x2000001); unfold uint32; lia. Defined.

(** ** The reserved combination of the address bit and the immediate bit *)

(** C5. No encoder of ordinary traffic produces the special-command
    combination: for every channel argument [c] (in range or not) and every
    payload argument, the blocks built by [FIFO_PACK_VALUE32],
    [FIFO_PACK_VALUE32_EXTRA], [FIFO_PACK_ADDRESS] and
    [FIFO_PACK_DATAMSG_HEADER] are not special commands.  Each sets at most
    one of the two bits: the immediate encoders leave the address bit (27)
    clear, the address encoder leaves the immediate bit (26) clear, and the
    data header leaves both clear. *)
Theorem encoders_never_special (c v a n : Z) :
  (FIFO_IS_SPECIAL_COMMAND (FIFO_PACK_VALUE32 c v) = false /\
   FIFO_IS_SPECIAL_COMMAND (FIFO_PACK_VALUE32_EXTRA c) = false /\
   FIFO_IS_SPECIAL_COMMAND (FIFO_PACK_ADDRESS c a) = false /\
   FIFO_IS_SPECIAL_COMMAND (FIFO_PACK_DATAMSG_HEADER c n) = false) /\
  (Z.testbit (FIFO_PACK_VALUE32 c v) FIFO_ADDRESSBIT_SHIFT = false /\
   Z.testbit (FIFO_PACK_VALUE32_EXTRA c) FIFO_ADDRESSBIT_SHIFT = false /\
   Z.testbit (FIFO_PACK_ADDRESS c a) FIFO_IMMEDIATEBIT_SHIFT = false /\
   Z.testbit (FIFO_PACK_DATAMSG_HEADER c n) FIFO_ADDRESSBIT_SHIFT = false /\
   Z.testbit (FIFO_PACK_DATAMSG_HEADER c n) FIFO_IMMEDIATEBIT_SHIFT = false).
Proof.
  change FIFO_ADDRESSBIT_SHIFT with 27. change FIFO_IMMEDIATEBIT_SHIFT with 26.
  rewrite !is_special_command_bits.
  rewrite !pack_value32_testbit, !pack_value32_extra_testbit,
    !pack_address_testbit, !pack_datamsg_header_testbit by lia.
  repeat split; reflexivity.
Qed.

(** ** Addresses *)

(** The window test in arithmetic: a 32-bit address is compatible exactly
    when it lies in [0x02000000, 0x02FFFFFF]. *)
Lemma address_compatible_window (a : Z) :
  uint32 a ->
  FIFO_IS_ADDRESS_COMPATIBLE a = true <-> 0x02000000 <= a <= 0x02FFFFFF.
Proof.
  intros Ha. unfold FIFO_IS_ADDRESS_COMPATIBLE.
  change FIFO_ADDRESSCOMPATIBLE with (Z.shiftl (Z.ones (32 - 24)) 24).
  rewrite land_high_mask by (assumption || lia).
  rewrite Z.eqb_eq. unfold FIFO_ADDRESSBASE.
  pose proof (Z.div_mod a (2 ^ 24) ltac:(lia)) as Hdm.
  pose proof (Z.mod_pos_bound a (2 ^ 24) ltac:(lia)) as Hm.
  change (2 ^ 24) with 16777216 in *. lia.
Qed.

(** The payload of an address block is 24 bits wide
    ([FIFO_ADDRESSDATA_MASK]): the decoder ORs the window base with the low
    24 bits of the block. *)
Lemma unpack_address_lor (w : Z) :
  FIFO_UNPACK_ADDRESS w = Z.lor FIFO_ADDRESSBASE (Z.land w (Z.ones 24)).
Proof.
  unfold FIFO_UNPACK_ADDRESS, FIFO_ADDRESSDATA_SHIFT, to_uint32.
  rewrite Z.shiftl_0_r, addressdata_mask_ones, Z.lor_comm. f_equal.
  apply Z.mod_small. rewrite Z.land_ones by lia.
  pose proof (Z.mod_pos_bound w (2 ^ 24) ltac:(lia)). lia.
Qed.

(** The address decoder in arithmetic: the window base plus the low 24 bits
    of the block (the base, [2^25], shares no bit with a 24-bit payload). *)
Lemma unpack_address_add (w : Z) :
  FIFO_UNPACK_ADDRESS w = FIFO_ADDRESSBASE + w mod 2 ^ 24.
Proof.
  rewrite unpack_address_lor, Z.land_ones by lia.
  pose proof (Z.mod_pos_bound w (2 ^ 24) ltac:(lia)) as Hm.
  assert (Hdisjoint : Z.land FIFO_ADDRESSBASE (w mod 2 ^ 24) = 0).
  { apply Z.bits_inj'. intros i Hi.
    rewrite Z.land_spec, Z.bits_0. change FIFO_ADDRESSBASE with (2 ^ 25).
    rewrite Z.pow2_bits_eqb by lia.
    destruct (Z.eqb_spec 25 i) as [<-|]; [|reflexivity].
    rewrite (small_bits_high (w mod 2 ^ 24) 24 25) by lia. reflexivity. }
  rewrite <- Z.lxor_lor by exact Hdisjoint.
  symmetry. apply Z.add_nocarry_lxor. exact Hdisjoint.
Qed.

Lemma pack_address_low (c a : Z) :
  FIFO_PACK_ADDRESS c a mod 2 ^ 24 = a mod 2 ^ 24.
Proof.
  rewrite <- !Z.land_ones by lia.
  apply Z.bits_inj'. intros i Hi.
  rewrite !Z.land_spec, pack_address_testbit, Z.testbit_ones_nonneg by lia.
  split_cmp; try lia; btauto.
Qed.

(** C4. Round trip of addresses: for a channel [c] in 0..15 and a 32-bit
    address [a] that passes [FIFO_IS_ADDRESS_COMPATIBLE], that is
    [(a & 0xFF000000) == 0x02000000], decoding the packed block returns [a];
    an address outside the window [0x02000000, 0x02FFFFFF] fails the test. *)
Theorem address_roundtrip (c a : Z) :
  0 <= c <= 15 ->
  uint32 a ->
  (FIFO_IS_ADDRESS_COMPATIBLE a = true <-> Z.land a 0xFF000000 = 0x02000000) /\
  (FIFO_IS_ADDRESS_COMPATIBLE a = true ->
   FIFO_UNPACK_ADDRESS (FIFO_PACK_ADDRESS c a) = a) /\
  (~ 0x02000000 <= a <= 0x02FFFFFF -> FIFO_IS_ADDRESS_COMPATIBLE a = false).
Proof.
  intros Hc Ha. split; [|split].
  - unfold FIFO_IS_ADDRESS_COMPATIBLE. apply Z.eqb_eq.
  - intros Hcompat. apply address_compatible_window in Hcompat; [|exact Ha].
    rewrite unpack_address_add, pack_address_low. unfold FIFO_ADDRESSBASE.
    pose proof (Z.div_mod a (2 ^ 24) ltac:(lia)) as Hdm.
    pose proof (Z.mod_pos_bound a (2 ^ 24) ltac:(lia)) as Hm.
    change (2 ^ 24) with 16777216 in *. lia.
  - intros Hout. apply not_true_iff_false. intros Hcompat.
    apply Hout. apply address_compatible_window; assumption.
Qed.

Lemma address_roundtrip_witness :
  (FIFO_IS_ADDRESS_COMPATIBLE 0x02010000 = true <->
   Z.land 0x02010000 0xFF000000 = 0x02000000) /\
  (FIFO_IS_ADDRESS_COMPATIBLE 0x02010000 = true ->
   FIFO_UNPACK_ADDRESS (FIFO_PACK_ADDRESS 0 0x02010000) = 0x02010000) /\
  (~ 0x02000000 <= 0x02010000 <= 0x02FFFFFF ->
   FIFO_IS_ADDRESS_COMPATIBLE 0x02010000 = false).
Proof. apply (address_roundtrip 0 0x02010000); unfold uint32; lia. Defined.

(** C10. The address decoder never leaves the main-memory window: for every
    block [w], whatever its bits, the decoded address passes
    [FIFO_IS_ADDRESS_COMPATIBLE] and lies in [0x02000000, 0x02FFFFFF]. *)
Theorem unpack_address_in_window (w : Z) :
  FIFO_IS_ADDRESS_COMPATIBLE (FIFO_UNPACK_ADDRESS w) = true /\
  0x02000000 <= FIFO_UNPACK_ADDRESS w <= 0x02FFFFFF.
Proof.
  assert (Hrange : 0x02000000 <= FIFO_UNPACK_ADDRESS w <= 0x02FFFFFF).
  { rewrite unpack_address_add. unfold FIFO_ADDRESSBASE.
    pose proof (Z.mod_pos_bound w (2 ^ 24) ltac:(lia)) as Hm.
    change (2 ^ 24) with 16777216 in *. lia. }
  split; [|exact Hrange].
  apply address_compatible_window; [unfold uint32|]; lia.
Qed.

(** C7, as the specification states it, fails: the block [0x09000000] has
    the address bit set and the immediate bit clear, so it is an address
    block, and its bit 24 is set; the decoder returns [0x02000000], not the
    base OR'd with the low 25 bits of the block ([0x03000000]). *)
Lemma unpack_address_25_bits_counterexample :
  ~ (forall w : Z,
        uint32 w ->
        classify w = Some Address ->
        FIFO_UNPACK_ADDRESS w = Z.lor 0x02000000 (Z.land w (Z.ones 25))).
Proof.
  intros H.
  assert (Hw : uint32 0x09000000) by (unfold uint32; lia).
  specialize (H 0x09000000 Hw eq_refl).
  vm_compute in H. discriminate H.
Qed.

(** C7, amended. For every block classified as an address, the payload is
    the low 24 bits of the block (bits 23..0, [FIFO_ADDRESSDATA_MASK]): the
    decoded address is the window base OR'd with those bits, it agrees with
    the block on bits 23..0, and its bit 24 is clear whatever bit 24 of the
    block is. *)
Theorem unpack_address_24_bits (w : Z) :
  classify w = Some Address ->
  FIFO_UNPACK_ADDRESS w = Z.lor 0x02000000 (Z.land w 0x00FFFFFF) /\
  (forall i, 0 <= i < 24 ->
             Z.testbit (FIFO_UNPACK_ADDRESS w) i = Z.testbit w i) /\
  Z.testbit (FIFO_UNPACK_ADDRESS w) 24 = false.
Proof.
  intros _. split; [apply unpack_address_lor|].
  split.
  - intros i Hi. rewrite unpack_address_lor.
    rewrite Z.lor_spec, Z.land_spec, Z.testbit_ones_nonneg by lia.
    change FIFO_ADDRESSBASE with (2 ^ 25). rewrite Z.pow2_bits_eqb by lia.
    split_cmp; try lia. btauto.
  - rewrite unpack_address_lor.
    rewrite Z.lor_spec, Z.land_spec, Z.testbit_ones_nonneg by lia.
    rewrite andb_false_r. reflexivity.
Qed.

Lemma unpack_address_24_bits_witness :
  FIFO_UNPACK_ADDRESS 0x09010000 = Z.lor 0x02000000 (Z.land 0x09010000 0x00FFFFFF) /\
  (forall i, 0 <= i < 24 ->
             Z.testbit (FIFO_UNPACK_ADDRESS 0x09010000) i = Z.testbit 0x09010000 i) /\
  Z.testbit (FIFO_UNPACK_ADDRESS 0x09010000) 24 = false.
Proof. apply (unpack_address_24_bits 0x09010000). reflexivity. Defined.

(** ** Classification *)

Lemma classify_bits (w : Z) :
  classify w =
  Some (if Z.testbit w 27
        then if Z.testbit w 26 then SpecialCommand else Address
        else if Z.testbit w 26
             then if Z.testbit w 25 then LargeImmediateHeader else SmallImmediate
             else DataHeader).
Proof.
  unfold classify.
  rewrite is_special_command_bits, is_address_bit, is_value32_bits,
    needextra_bit, is_data_bits.
  destruct (Z.testbit w 27), (Z.testbit w 26), (Z.testbit w 25); reflexivity.
Qed.

(** C1. Classification is exclusive: with the special-command test made
    before the single-bit tests, every block is given a kind, and that kind
    is the one and only row of the table of message kinds that the block
    matches.  A block with the address bit and the immediate bit both set is
    a special command, whatever its extra bit and its channel field. *)
Theorem classify_exclusive (w : Z) :
  (exists k : MessageKind,
      classify w = Some k /\
      forall k' : MessageKind, kind_row k' w = true <-> k' = k) /\
  (Z.testbit w FIFO_ADDRESSBIT_SHIFT = true ->
   Z.testbit w FIFO_IMMEDIATEBIT_SHIFT = true ->
   classify w = Some SpecialCommand) /\
  (forall x : Z,
      classify (Z.lor x (Z.lor FIFO_ADDRESSBIT FIFO_IMMEDIATEBIT)) =
      Some SpecialCommand).
Proof.
  split; [|split].
  - rewrite classify_bits. unfold kind_row.
    change FIFO_ADDRESSBIT_SHIFT with 27.
    change FIFO_IMMEDIATEBIT_SHIFT with 26.
    change FIFO_EXTRABIT_SHIFT with 25.
    destruct (Z.testbit w 27), (Z.testbit w 26), (Z.testbit w 25);
      (eexists; split; [reflexivity|]);
      intros k'; destruct k'; simpl; split; intros H;
      solve [reflexivity | discriminate H].
  - change FIFO_ADDRESSBIT_SHIFT with 27.
    change FIFO_IMMEDIATEBIT_SHIFT with 26.
    intros Ha Hi. rewrite classify_bits, Ha, Hi. reflexivity.
  - intros x. rewrite classify_bits.
    rewrite addressbit_pow2, immediatebit_pow2.
    rewrite !Z.lor_spec, !Z.pow2_bits_eqb by lia.
    simpl. rewrite !orb_true_r. reflexivity.
Qed.

Lemma classify_exclusive_witness :
  classify 0x0C04000B = Some SpecialCommand.
Proof.
  apply (proj1 (proj2 (classify_exclusive 0x0C04000B))); reflexivity.
Defined.

(** C9. [FIFO_IS_ADDRESS] alone does not exclude special commands: every
    block that [FIFO_IS_SPECIAL_COMMAND] accepts is accepted by
    [FIFO_IS_ADDRESS] too, although its kind is [SpecialCommand] and not
    [Address]; a receiver has to test for a special command first. *)
Theorem is_special_command_is_address (w : Z) :
  FIFO_IS_SPECIAL_COMMAND w = true ->
  FIFO_IS_ADDRESS w = true /\
  classify w = Some SpecialCommand /\
  classify w <> Some Address.
Proof.
  intros H. rewrite is_special_command_bits in H.
  apply andb_true_iff in H. destruct H as [Ha Hi].
  rewrite is_address_bit, classify_bits, Ha, Hi.
  repeat split. discriminate.
Qed.

Lemma is_special_command_is_address_witness :
  FIFO_IS_ADDRESS 0x0C04000B = true /\
  classify 0x0C04000B = Some SpecialCommand /\
  classify 0x0C04000B <> Some Address.
Proof. apply (is_special_command_is_address 0x0C04000B). reflexivity. Defined.

(** ** Example blocks *)

Example pack_value32_3_42 :
  FIFO_PACK_VALUE32 3 42 = 0x3400002A /\
  classify (FIFO_PACK_VALUE32 3 42) = Some SmallImmediate.
Proof. split; reflexivity. Qed.

Example pack_address_0_02010000 :
  FIFO_PACK_ADDRESS 0 0x02010000 = 0x08010000 /\
  classify (FIFO_PACK_ADDRESS 0 0x02010000) = Some Address /\
  FIFO_UNPACK_ADDRESS (FIFO_PACK_ADDRESS 0 0x02010000) = 0x02010000.
Proof. repeat split; reflexivity. Qed.

Example reset_cmd_block :
  reset_cmd = 0x0C04000B /\
  classify reset_cmd = Some SpecialCommand /\
  Z.land reset_cmd FIFO_SPECIAL_COMMAND_MASK = 0x4000B.
Proof. repeat split; reflexivity. Qed.

(** ** The exit path *)

Lemma run_add (BOOTSIG : Z) (self : cpu) (rc bootsig : Z) (n m : nat) (s : state) :
  run BOOTSIG self rc bootsig (n + m) s =
  run BOOTSIG self rc bootsig m (run BOOTSIG self rc bootsig n s).
Proof.
  revert s. induction n as [|n IH]; intros s; simpl.
  - reflexivity.
  - apply IH.
Qed.

(** Once in [while(1);] the state never changes: no further call is made. *)
Lemma run_spin (BOOTSIG : Z) (self : cpu) (rc bootsig : Z) (n : nat) (s : state) :
  pc s = at_spin -> run BOOTSIG self rc bootsig n s = s.
Proof.
  intros Hs. induction n as [|n IH]; simpl.
  - reflexivity.
  - replace (step BOOTSIG self rc bootsig s) with s; [exact IH|].
    destruct s as [p l]. simpl in Hs. subst p. reflexivity.
Qed.

Lemma run_snoc (BOOTSIG : Z) (self : cpu) (rc bootsig : Z) (n : nat) (s : state) :
  run BOOTSIG self rc bootsig (S n) s =
  step BOOTSIG self rc bootsig (run BOOTSIG self rc bootsig n s).
Proof.
  replace (S n) with (n + 1)%nat by lia. rewrite run_add. reflexivity.
Qed.

(** The first three steps, one by one. *)
Lemma libnds_exit_1 (BOOTSIG : Z) (self : cpu) (rc bootsig : Z) :
  __libnds_exit BOOTSIG self rc bootsig 1 =
  mkState at_bootcode_load (if rc =? 0 then [] else [systemErrorExit rc]).
Proof.
  unfold __libnds_exit, run, step, nonzero. simpl.
  destruct (rc =? 0); reflexivity.
Qed.

Lemma libnds_exit_2 (BOOTSIG : Z) (self : cpu) (rc bootsig : Z) :
  __libnds_exit BOOTSIG self rc bootsig 2 =
  mkState at_bootsig_test
          ((if rc =? 0 then [] else [systemErrorExit rc]) ++ [transferRegion]).
Proof.
  unfold __libnds_exit. rewrite run_snoc.
  fold (__libnds_exit BOOTSIG self rc bootsig 1). rewrite libnds_exit_1.
  reflexivity.
Qed.

Lemma libnds_exit_3 (BOOTSIG : Z) (self : cpu) (rc bootsig : Z) :
  __libnds_exit BOOTSIG self rc bootsig 3 =
  mkState at_spin
          ((if rc =? 0 then [] else [systemErrorExit rc]) ++
           [transferRegion] ++
           [if bootsig =? BOOTSIG
            then match self with
                 | ARM9 => arm9reboot
                 | ARM7 => fifoInternalSend reset_cmd 0 None
                 end
            else systemShutDown]).
Proof.
  unfold __libnds_exit. rewrite run_snoc.
  fold (__libnds_exit BOOTSIG self rc bootsig 2). rewrite libnds_exit_2.
  unfold step. simpl pc. simpl calls.
  destruct (bootsig =? BOOTSIG), self; rewrite <- app_assoc; reflexivity.
Qed.

(** From the third step on the state is the same: the loop has been
    reached, on every path. *)
Lemma libnds_exit_stable (BOOTSIG : Z) (self : cpu) (rc bootsig : Z) (k : nat) :
  __libnds_exit BOOTSIG self rc bootsig (3 + k) =
  __libnds_exit BOOTSIG self rc bootsig 3.
Proof.
  unfold __libnds_exit. rewrite run_add. apply run_spin.
  fold (__libnds_exit BOOTSIG self rc bootsig 3). rewrite libnds_exit_3.
  reflexivity.
Qed.

(** Calls are only ever added: the calls made after any number of steps are
    an initial part of the calls made when the loop is reached. *)
Lemma libnds_exit_calls_prefix (BOOTSIG : Z) (self : cpu) (rc bootsig : Z) (m : nat) :
  exists l : list call,
    calls (__libnds_exit BOOTSIG self rc bootsig m) ++ l =
    calls (__libnds_exit BOOTSIG self rc bootsig 3).
Proof.
  rewrite libnds_exit_3.
  destruct m as [|[|[|m]]].
  - eexists. reflexivity.
  - rewrite libnds_exit_1. eexists. reflexivity.
  - rewrite libnds_exit_2. eexists. simpl calls. rewrite <- app_assoc.
    reflexivity.
  - exists []. rewrite app_nil_r.
    change (S (S (S m))) with (3 + m)%nat.
    rewrite libnds_exit_stable, libnds_exit_3. reflexivity.
Qed.

Lemma sent_words_app (l1 l2 : list call) :
  sent_words (l1 ++ l2) = sent_words l1 ++ sent_words l2.
Proof.
  induction l1 as [|c l1 IH]; simpl.
  - reflexivity.
  - destruct c; simpl; rewrite IH; reflexivity.
Qed.

(** C6. The exit path on the ARM7 (the coprocessor).  From the third step on
    [__libnds_exit(rc)] is in its final loop, and the calls it has made, in
    order, are: [systemErrorExit(rc)] exactly when [rc] is not zero, before
    the boot stub is fetched and its signature tested; then, when the
    signature is [BOOTSIG], one [fifoInternalSend] of the special-command
    block [FIFO_ADDRESSBIT | FIFO_IMMEDIATEBIT | 0x4000B] with no extra
    word, and otherwise [systemShutDown()] and no send at all.  The calls
    made at any earlier or later moment are an initial part of that list, so
    nothing is sent a second time. *)
Theorem libnds_exit_arm7 (BOOTSIG rc bootsig : Z) (k : nat) :
  let final := __libnds_exit BOOTSIG ARM7 rc bootsig (3 + k) in
  let hook := if rc =? 0 then [] else [systemErrorExit rc] in
  pc final = at_spin /\
  (bootsig = BOOTSIG ->
   calls final = hook ++ [transferRegion; fifoInternalSend reset_cmd 0 None] /\
   sent_words (calls final) = [reset_cmd]) /\
  (bootsig <> BOOTSIG ->
   calls final = hook ++ [transferRegion; systemShutDown] /\
   sent_words (calls final) = []) /\
  (forall rc' : Z, In (systemErrorExit rc') (calls final) <-> rc' = rc /\ rc <> 0) /\
  (forall m : nat,
      exists l : list call,
        calls (__libnds_exit BOOTSIG ARM7 rc bootsig m) ++ l = calls final) /\
  FIFO_IS_SPECIAL_COMMAND reset_cmd = true /\
  Z.land reset_cmd FIFO_SPECIAL_COMMAND_MASK = FIFO_ARM7_REQUESTS_ARM9_RESET /\
  FIFO_ARM7_REQUESTS_ARM9_RESET = 0x4000B.
Proof.
  intros final hook. subst final.
  rewrite libnds_exit_stable.
  split; [rewrite libnds_exit_3; reflexivity|].
  split; [|split; [|split; [|split]]].
  - intros Hsig. apply Z.eqb_eq in Hsig.
    rewrite libnds_exit_3, Hsig. simpl calls.
    split; [reflexivity|].
    rewrite sent_words_app. subst hook. destruct (rc =? 0); reflexivity.
  - intros Hsig. apply Z.eqb_neq in Hsig.
    rewrite libnds_exit_3, Hsig. simpl calls.
    split; [reflexivity|].
    rewrite sent_words_app. subst hook. destruct (rc =? 0); reflexivity.
  - intros rc'. rewrite libnds_exit_3. simpl calls.
    destruct (Z.eqb_spec rc 0) as [Hz|Hnz], (bootsig =? BOOTSIG); simpl;
      split;
      try (intros [H|[H|[H|H]]]; try discriminate H; try contradiction;
           injection H as <-; split; [reflexivity|assumption]);
      try (intros [H|[H|H]]; try discriminate H; contradiction);
      try (intros [_ H]; contradiction);
      intros [-> _]; left; reflexivity.
  - intros m. apply libnds_exit_calls_prefix.
  - repeat split.
Qed.

Lemma libnds_exit_arm7_witness :
  (calls (__libnds_exit 7 ARM7 1 7 (3 + 5)) =
     [systemErrorExit 1; transferRegion; fifoInternalSend 0x0C04000B 0 None] /\
   sent_words (calls (__libnds_exit 7 ARM7 1 7 (3 + 5))) = [0x0C04000B]) /\
  (calls (__libnds_exit 7 ARM7 0 8 (3 + 5)) = [transferRegion; systemShutDown] /\
   sent_words (calls (__libnds_exit 7 ARM7 0 8 (3 + 5))) = []).
Proof.
  split.
  - apply (proj1 (proj2 (libnds_exit_arm7 7 1 7 5))). reflexivity.
  - apply (proj1 (proj2 (proj2 (libnds_exit_arm7 7 0 8 5)))). lia.
Defined.

(** * Further properties of the header functions *)

(** ** The channel field *)

Lemma unpack_channel_testbit (w i : Z) :
  0 <= i ->
  Z.testbit (FIFO_UNPACK_CHANNEL w) i = (i <? 4) && Z.testbit w (i + 28).
Proof.
  intros Hi. unfold FIFO_UNPACK_CHANNEL.
  rewrite channel_mask_ones, channel_shift_val.
  rewrite Z.land_spec, Z.shiftr_spec, Z.testbit_ones_nonneg by lia.
  apply andb_comm.
Qed.

(** A block whose bits 31..28 are the low four bits of [c] has channel
    [c mod 16]. *)
Lemma unpack_channel_of_field (w c : Z) :
  (forall i, 0 <= i < 4 -> Z.testbit w (i + 28) = Z.testbit c i) ->
  FIFO_UNPACK_CHANNEL w = c mod 2 ^ 4.
Proof.
  intros Hfield. rewrite <- (Z.land_ones c 4) by lia.
  apply Z.bits_inj'. intros i Hi.
  rewrite unpack_channel_testbit, Z.land_spec, Z.testbit_ones_nonneg by lia.
  destruct (Z.ltb_spec i 4).
  - rewrite Hfield by lia. btauto.
  - btauto.
Qed.

Ltac channel_field :=
  apply unpack_channel_of_field; intros i Hi;
  rewrite ?pack_value32_testbit, ?pack_value32_extra_testbit,
    ?pack_address_testbit, ?pack_datamsg_header_testbit by lia;
  replace (i + 28 - 28) with i by lia;
  split_cmp; try lia; btauto.

Lemma unpack_channel_pack_value32_extra (c : Z) :
  FIFO_UNPACK_CHANNEL (FIFO_PACK_VALUE32_EXTRA c) = c mod 2 ^ 4.
Proof. channel_field. Qed.

Lemma unpack_channel_pack_address (c a : Z) :
  FIFO_UNPACK_CHANNEL (FIFO_PACK_ADDRESS c a) = c mod 2 ^ 4.
Proof. channel_field. Qed.

Lemma unpack_channel_pack_datamsg_header (c n : Z) :
  FIFO_UNPACK_CHANNEL (FIFO_PACK_DATAMSG_HEADER c n) = c mod 2 ^ 4.
Proof. channel_field. Qed.

Lemma channel_mod_small (c : Z) : 0 <= c <= 15 -> c mod 2 ^ 4 = c.
Proof. intros Hc. apply Z.mod_small. change (2 ^ 4) with 16. lia. Qed.

(** The channel field only depends on the channel modulo 16. *)
Lemma channel_field_mod (c : Z) :
  to_uint32 (Z.shiftl (c mod 2 ^ 4) FIFO_CHANNEL_SHIFT) =
  to_uint32 (Z.shiftl c FIFO_CHANNEL_SHIFT).
Proof.
  apply Z.bits_inj'. intros i Hi.
  rewrite !channel_field_testbit by lia.
  rewrite <- (Z.land_ones c 4) by lia.
  rewrite Z.land_spec.
  destruct (Z.leb_spec 28 i); [|reflexivity].
  destruct (Z.ltb_spec i 32); [|reflexivity].
  rewrite Z.testbit_ones_nonneg by lia.
  destruct (Z.ltb_spec (i - 28) 4); [btauto|lia].
Qed.

Lemma uint32_pow2 (n : Z) : 0 <= n < 32 -> uint32 (2 ^ n).
Proof.
  intros Hn. unfold uint32. split; [lia|].
  apply Z.pow_lt_mono_r; lia.
Qed.

Lemma uint32_ones (n : Z) : 0 <= n <= 32 -> uint32 (Z.ones n).
Proof.
  intros Hn. unfold uint32. rewrite Z.ones_equiv.
  assert (2 ^ n <= 2 ^ 32) by (apply Z.pow_le_mono_r; lia).
  assert (0 < 2 ^ n) by (apply Z.pow_pos_nonneg; lia).
  lia.
Qed.

Lemma pack_value32_extra_uint32 (c : Z) : uint32 (FIFO_PACK_VALUE32_EXTRA c).
Proof.
  unfold FIFO_PACK_VALUE32_EXTRA.
  rewrite immediatebit_pow2, extrabit_pow2.
  repeat apply uint32_lor; try apply uint32_to_uint32; apply uint32_pow2; lia.
Qed.

Lemma pack_address_uint32 (c a : Z) : uint32 (FIFO_PACK_ADDRESS c a).
Proof.
  unfold FIFO_PACK_ADDRESS.
  rewrite addressbit_pow2, addressdata_mask_ones.
  repeat apply uint32_lor; try apply uint32_to_uint32.
  - apply uint32_pow2; lia.
  - apply uint32_land_r, uint32_ones. lia.
Qed.

Lemma pack_datamsg_header_uint32 (c n : Z) :
  uint32 (FIFO_PACK_DATAMSG_HEADER c n).
Proof.
  unfold FIFO_PACK_DATAMSG_HEADER. rewrite value32_mask_ones.
  apply uint32_lor; try apply uint32_to_uint32.
  apply uint32_land_r, uint32_ones. lia.
Qed.

(** X4. The channel read from a 32-bit block is always a valid channel
    number, below [FIFO_NUM_CHANNELS]; it is the block divided by [2^28]. *)
Theorem unpack_channel_range (w : Z) :
  uint32 w ->
  0 <= FIFO_UNPACK_CHANNEL w < FIFO_NUM_CHANNELS /\
  FIFO_UNPACK_CHANNEL w = w / 2 ^ 28.
Proof.
  intros Hw. unfold uint32 in Hw.
  assert (Hdiv : FIFO_UNPACK_CHANNEL w = w / 2 ^ 28).
  { unfold FIFO_UNPACK_CHANNEL.
    rewrite channel_mask_ones, channel_shift_val, Z.land_ones by lia.
    rewrite Z.shiftr_div_pow2 by lia. apply Z.mod_small. split.
    - apply Z.div_pos; lia.
    - apply Z.div_lt_upper_bound; [lia|].
      change (2 ^ 28 * 2 ^ 4) with (2 ^ 32). lia. }
  split; [|exact Hdiv].
  rewrite Hdiv. change FIFO_NUM_CHANNELS with 16. split.
  - apply Z.div_pos; lia.
  - apply Z.div_lt_upper_bound; [lia|].
    change (2 ^ 28 * 16) with (2 ^ 32). lia.
Qed.

Lemma unpack_channel_range_witness :
  0 <= FIFO_UNPACK_CHANNEL 0xFFFFFFFF < FIFO_NUM_CHANNELS /\
  FIFO_UNPACK_CHANNEL 0xFFFFFFFF = 0xFFFFFFFF / 2 ^ 28.
Proof. apply (unpack_channel_range 0xFFFFFFFF). unfold uint32. lia. Defined.

(** X5. A channel argument outside 0..15 is not rejected: every encoder
    keeps its low four bits only.  The channel read back from the block is
    the argument modulo 16, and the block is the one built for that
    channel. *)
Theorem channel_argument_wraps (c v a n : Z) :
  (FIFO_UNPACK_CHANNEL (FIFO_PACK_VALUE32 c v) = c mod 16 /\
   FIFO_UNPACK_CHANNEL (FIFO_PACK_VALUE32_EXTRA c) = c mod 16 /\
   FIFO_UNPACK_CHANNEL (FIFO_PACK_ADDRESS c a) = c mod 16 /\
   FIFO_UNPACK_CHANNEL (FIFO_PACK_DATAMSG_HEADER c n) = c mod 16) /\
  (FIFO_PACK_VALUE32 c v = FIFO_PACK_VALUE32 (c mod 16) v /\
   FIFO_PACK_VALUE32_EXTRA c = FIFO_PACK_VALUE32_EXTRA (c mod 16) /\
   FIFO_PACK_ADDRESS c a = FIFO_PACK_ADDRESS (c mod 16) a /\
   FIFO_PACK_DATAMSG_HEADER c n = FIFO_PACK_DATAMSG_HEADER (c mod 16) n).
Proof.
  change 16 with (2 ^ 4). split.
  - rewrite unpack_channel_pack_value32, unpack_channel_pack_value32_extra,
      unpack_channel_pack_address, unpack_channel_pack_datamsg_header.
    repeat split.
  - unfold FIFO_PACK_VALUE32, FIFO_PACK_VALUE32_EXTRA, FIFO_PACK_ADDRESS,
      FIFO_PACK_DATAMSG_HEADER.
    rewrite channel_field_mod. repeat split.
Qed.

(** ** Data message headers *)

Lemma unpack_datalength_pack (c n : Z) :
  FIFO_UNPACK_DATALENGTH (FIFO_PACK_DATAMSG_HEADER c n) = n mod 2 ^ 25.
Proof.
  unfold FIFO_UNPACK_DATALENGTH. rewrite value32_mask_ones.
  rewrite <- (Z.land_ones n 25) by lia.
  apply Z.bits_inj'. intros i Hi.
  rewrite !Z.land_spec, pack_datamsg_header_testbit, Z.testbit_ones_nonneg by lia.
  split_cmp; try lia; rewrite ?(Z.testbit_neg_r c (i - 28)) by lia; btauto.
Qed.

(** X1. Data headers: for a channel [c] in 0..15 and a 32-bit byte count
    [n], the header is a 32-bit block that [FIFO_IS_DATA] accepts and the
    immediate and address tests reject, and it carries the channel [c].  The
    length read back is [n mod 2^25]: it is [n] exactly when [n < 2^25], so
    every length up to [FIFO_MAX_DATA_BYTES] survives. *)
Theorem datamsg_header_roundtrip (c n : Z) :
  0 <= c <= 15 ->
  uint32 n ->
  uint32 (FIFO_PACK_DATAMSG_HEADER c n) /\
  FIFO_IS_DATA (FIFO_PACK_DATAMSG_HEADER c n) = true /\
  FIFO_IS_VALUE32 (FIFO_PACK_DATAMSG_HEADER c n) = false /\
  FIFO_IS_ADDRESS (FIFO_PACK_DATAMSG_HEADER c n) = false /\
  FIFO_UNPACK_CHANNEL (FIFO_PACK_DATAMSG_HEADER c n) = c /\
  FIFO_UNPACK_DATALENGTH (FIFO_PACK_DATAMSG_HEADER c n) = n mod 2 ^ 25 /\
  (FIFO_UNPACK_DATALENGTH (FIFO_PACK_DATAMSG_HEADER c n) = n <-> n < 2 ^ 25) /\
  (n <= FIFO_MAX_DATA_BYTES ->
   FIFO_UNPACK_DATALENGTH (FIFO_PACK_DATAMSG_HEADER c n) = n).
Proof.
  intros Hc Hn. unfold uint32 in Hn.
  pose proof (Z.mod_pos_bound n (2 ^ 25) ltac:(lia)) as Hm.
  split; [apply pack_datamsg_header_uint32|].
  split; [rewrite is_data_bits, !pack_datamsg_header_testbit by lia; reflexivity|].
  split; [rewrite is_value32_bits, !pack_datamsg_header_testbit by lia; reflexivity|].
  split; [rewrite is_address_bit, pack_datamsg_header_testbit by lia; reflexivity|].
  split; [rewrite unpack_channel_pack_datamsg_header; apply channel_mod_small, Hc|].
  rewrite unpack_datalength_pack.
  split; [reflexivity|]. split.
  - split.
    + intros Heq. lia.
    + intros Hlt. apply Z.mod_small. lia.
  - unfold FIFO_MAX_DATA_BYTES. intros Hle. apply Z.mod_small. lia.
Qed.

Lemma datamsg_header_roundtrip_witness :
  uint32 (FIFO_PACK_DATAMSG_HEADER 7 128) /\
  FIFO_IS_DATA (FIFO_PACK_DATAMSG_HEADER 7 128) = true /\
  FIFO_IS_VALUE32 (FIFO_PACK_DATAMSG_HEADER 7 128) = false /\
  FIFO_IS_ADDRESS (FIFO_PACK_DATAMSG_HEADER 7 128) = false /\
  FIFO_UNPACK_CHANNEL (FIFO_PACK_DATAMSG_HEADER 7 128) = 7 /\
  FIFO_UNPACK_DATALENGTH (FIFO_PACK_DATAMSG_HEADER 7 128) = 128 mod 2 ^ 25 /\
  (FIFO_UNPACK_DATALENGTH (FIFO_PACK_DATAMSG_HEADER 7 128) = 128 <-> 128 < 2 ^ 25) /\
  (128 <= FIFO_MAX_DATA_BYTES ->
   FIFO_UNPACK_DATALENGTH (FIFO_PACK_DATAMSG_HEADER 7 128) = 128).
Proof. apply (datamsg_header_roundtrip 7 128); unfold uint32; lia. Defined.

(** ** Headers of 32-bit immediates that need the extra block *)

(** X2. For a channel [c] in 0..15, [FIFO_PACK_VALUE32_EXTRA c] is a 32-bit
    block that the immediate test accepts with the extra bit set, so the
    receiver knows that the value follows; the address and data tests reject
    it, its channel is [c] and its 25 payload bits are zero. *)
Theorem value32_extra_header (c : Z) :
  0 <= c <= 15 ->
  uint32 (FIFO_PACK_VALUE32_EXTRA c) /\
  FIFO_IS_VALUE32 (FIFO_PACK_VALUE32_EXTRA c) = true /\
  FIFO_UNPACK_VALUE32_NEEDEXTRA (FIFO_PACK_VALUE32_EXTRA c) = true /\
  FIFO_IS_ADDRESS (FIFO_PACK_VALUE32_EXTRA c) = false /\
  FIFO_IS_DATA (FIFO_PACK_VALUE32_EXTRA c) = false /\
  FIFO_UNPACK_CHANNEL (FIFO_PACK_VALUE32_EXTRA c) = c /\
  FIFO_UNPACK_VALUE32_NOEXTRA (FIFO_PACK_VALUE32_EXTRA c) = 0.
Proof.
  intros Hc.
  split; [apply pack_value32_extra_uint32|].
  split; [rewrite is_value32_bits, !pack_value32_extra_testbit by lia; reflexivity|].
  split; [rewrite needextra_bit, pack_value32_extra_testbit by lia; reflexivity|].
  split; [rewrite is_address_bit, pack_value32_extra_testbit by lia; reflexivity|].
  split; [rewrite is_data_bits, !pack_value32_extra_testbit by lia; reflexivity|].
  split; [rewrite unpack_channel_pack_value32_extra; apply channel_mod_small, Hc|].
  unfold FIFO_UNPACK_VALUE32_NOEXTRA. rewrite value32_mask_ones.
  apply Z.bits_inj'. intros i Hi.
  rewrite Z.land_spec, pack_value32_extra_testbit, Z.testbit_ones_nonneg,
    Z.bits_0 by lia.
  split_cmp; try lia; rewrite ?(Z.testbit_neg_r c (i - 28)) by lia; btauto.
Qed.

Lemma value32_extra_header_witness :
  uint32 (FIFO_PACK_VALUE32_EXTRA 15) /\
  FIFO_IS_VALUE32 (FIFO_PACK_VALUE32_EXTRA 15) = true /\
  FIFO_UNPACK_VALUE32_NEEDEXTRA (FIFO_PACK_VALUE32_EXTRA 15) = true /\
  FIFO_IS_ADDRESS (FIFO_PACK_VALUE32_EXTRA 15) = false /\
  FIFO_IS_DATA (FIFO_PACK_VALUE32_EXTRA 15) = false /\
  FIFO_UNPACK_CHANNEL (FIFO_PACK_VALUE32_EXTRA 15) = 15 /\
  FIFO_UNPACK_VALUE32_NOEXTRA (FIFO_PACK_VALUE32_EXTRA 15) = 0.
Proof. apply (value32_extra_header 15). lia. Defined.

(** ** Address blocks *)

(** X3. For a channel [c] in 0..15 and any address argument [a], in the
    window or not, [FIFO_PACK_ADDRESS c a] is a 32-bit block that
    [FIFO_IS_ADDRESS] accepts and the immediate and data tests reject; it
    carries the channel [c], and its bits 26..24 are clear. *)
Theorem pack_address_block (c a : Z) :
  0 <= c <= 15 ->
  uint32 (FIFO_PACK_ADDRESS c a) /\
  FIFO_IS_ADDRESS (FIFO_PACK_ADDRESS c a) = true /\
  FIFO_IS_VALUE32 (FIFO_PACK_ADDRESS c a) = false /\
  FIFO_IS_DATA (FIFO_PACK_ADDRESS c a) = false /\
  FIFO_UNPACK_CHANNEL (FIFO_PACK_ADDRESS c a) = c /\
  (forall i, 24 <= i <= 26 -> Z.testbit (FIFO_PACK_ADDRESS c a) i = false).
Proof.
  intros Hc.
  split; [apply pack_address_uint32|].
  split; [rewrite is_address_bit, pack_address_testbit by lia; reflexivity|].
  split; [rewrite is_value32_bits, !pack_address_testbit by lia; reflexivity|].
  split; [rewrite is_data_bits, !pack_address_testbit by lia; reflexivity|].
  split; [rewrite unpack_channel_pack_address; apply channel_mod_small, Hc|].
  intros i Hi. rewrite pack_address_testbit by lia.
  split_cmp; try lia; btauto.
Qed.

Lemma pack_address_block_witness :
  uint32 (FIFO_PACK_ADDRESS 9 0x02345678) /\
  FIFO_IS_ADDRESS (FIFO_PACK_ADDRESS 9 0x02345678) = true /\
  FIFO_IS_VALUE32 (FIFO_PACK_ADDRESS 9 0x02345678) = false /\
  FIFO_IS_DATA (FIFO_PACK_ADDRESS 9 0x02345678) = false /\
  FIFO_UNPACK_CHANNEL (FIFO_PACK_ADDRESS 9 0x02345678) = 9 /\
  (forall i, 24 <= i <= 26 ->
             Z.testbit (FIFO_PACK_ADDRESS 9 0x02345678) i = false).
Proof. apply (pack_address_block 9 0x02345678). lia. Defined.

(** X6. An address outside the window is not rejected by the encoder: its
    top byte is dropped, and the address read back is the window base plus
    the low 24 bits.  For a 32-bit address the round trip returns the
    address exactly when [FIFO_IS_ADDRESS_COMPATIBLE] accepts it. *)
Theorem address_roundtrip_iff_compatible (c a : Z) :
  uint32 a ->
  FIFO_UNPACK_ADDRESS (FIFO_PACK_ADDRESS c a) = 0x02000000 + a mod 2 ^ 24 /\
  (FIFO_UNPACK_ADDRESS (FIFO_PACK_ADDRESS c a) = a <->
   FIFO_IS_ADDRESS_COMPATIBLE a = true).
Proof.
  intros Ha.
  assert (Heq : FIFO_UNPACK_ADDRESS (FIFO_PACK_ADDRESS c a) =
                0x02000000 + a mod 2 ^ 24).
  { rewrite unpack_address_add, pack_address_low. reflexivity. }
  split; [exact Heq|].
  rewrite Heq, address_compatible_window by exact Ha.
  pose proof (Z.div_mod a (2 ^ 24) ltac:(lia)) as Hdm.
  pose proof (Z.mod_pos_bound a (2 ^ 24) ltac:(lia)) as Hm.
  change (2 ^ 24) with 16777216 in *. lia.
Qed.

Lemma address_roundtrip_iff_compatible_witness :
  FIFO_UNPACK_ADDRESS (FIFO_PACK_ADDRESS 2 0x03000010) =
    0x02000000 + 0x03000010 mod 2 ^ 24 /\
  (FIFO_UNPACK_ADDRESS (FIFO_PACK_ADDRESS 2 0x03000010) = 0x03000010 <->
   FIFO_IS_ADDRESS_COMPATIBLE 0x03000010 = true).
Proof.
  apply (address_roundtrip_iff_compatible 2 0x03000010). unfold uint32. lia.
Defined.

(** ** The layout as a whole *)

(** X7. The fields of the header partition the block: a 32-bit block is the
    OR of its channel put back at bit 28, its address bit, its immediate
    bit, its extra bit and its 25 payload bits. *)
Theorem block_fields (w : Z) :
  uint32 w ->
  w = Z.lor (Z.lor (Z.lor (Z.lor
        (Z.shiftl (FIFO_UNPACK_CHANNEL w) FIFO_CHANNEL_SHIFT)
        (Z.land w FIFO_ADDRESSBIT))
        (Z.land w FIFO_IMMEDIATEBIT))
        (Z.land w FIFO_EXTRABIT))
        (Z.land w FIFO_VALUE32_MASK).
Proof.
  intros Hw. unfold uint32 in Hw.
  rewrite channel_shift_val, addressbit_pow2, immediatebit_pow2,
    extrabit_pow2, value32_mask_ones.
  apply Z.bits_inj'. intros i Hi.
  rewrite !Z.lor_spec, !Z.land_spec, !Z.pow2_bits_eqb,
    Z.testbit_ones_nonneg by lia.
  destruct (Z.ltb_spec i 28) as [Hlo|Hhi].
  - rewrite Z.shiftl_spec_low by lia.
    split_cmp; try lia; btauto.
  - rewrite Z.shiftl_spec, unpack_channel_testbit by lia.
    replace (i - 28 + 28) with i by lia.
    destruct (Z.ltb_spec (i - 28) 4).
    + split_cmp; try lia; btauto.
    + rewrite (small_bits_high w 32 i) by lia. split_cmp; try lia; btauto.
Qed.

Lemma block_fields_witness :
  0x3400002A =
  Z.lor (Z.lor (Z.lor (Z.lor
    (Z.shiftl (FIFO_UNPACK_CHANNEL 0x3400002A) FIFO_CHANNEL_SHIFT)
    (Z.land 0x3400002A FIFO_ADDRESSBIT))
    (Z.land 0x3400002A FIFO_IMMEDIATEBIT))
    (Z.land 0x3400002A FIFO_EXTRABIT))
    (Z.land 0x3400002A FIFO_VALUE32_MASK).
Proof. apply (block_fields 0x3400002A). unfold uint32. lia. Defined.

(** X8. The tests of the header on one block: [FIFO_IS_DATA] holds exactly
    when neither [FIFO_IS_VALUE32] nor [FIFO_IS_ADDRESS] does, the last two
    never hold together, and a special command is neither an immediate nor
    a data header. *)
Theorem block_tests_partition (w : Z) :
  FIFO_IS_DATA w = negb (FIFO_IS_VALUE32 w) && negb (FIFO_IS_ADDRESS w) /\
  FIFO_IS_VALUE32 w && FIFO_IS_ADDRESS w = false /\
  FIFO_IS_SPECIAL_COMMAND w && (FIFO_IS_VALUE32 w || FIFO_IS_DATA w) = false.
Proof.
  rewrite is_data_bits, is_value32_bits, is_address_bit, is_special_command_bits.
  destruct (Z.testbit w 27), (Z.testbit w 26); repeat split.
Qed.

(** ** Decoding and encoding again *)

(** X9. A 32-bit block that is an immediate without the extra bit is the
    block [FIFO_PACK_VALUE32] builds from its channel and its value. *)
Theorem value32_block_repack (w : Z) :
  uint32 w ->
  FIFO_IS_VALUE32 w = true ->
  FIFO_UNPACK_VALUE32_NEEDEXTRA w = false ->
  FIFO_PACK_VALUE32 (FIFO_UNPACK_CHANNEL w) (FIFO_UNPACK_VALUE32_NOEXTRA w) = w.
Proof.
  intros Hw Hv Hx. unfold uint32 in Hw.
  rewrite is_value32_bits in Hv. apply andb_true_iff in Hv.
  destruct Hv as [Ha Him]. apply negb_true_iff in Ha.
  rewrite needextra_bit in Hx.
  apply Z.bits_inj'. intros i Hi.
  rewrite pack_value32_testbit by lia.
  unfold FIFO_UNPACK_VALUE32_NOEXTRA. rewrite value32_mask_ones.
  rewrite Z.land_spec, Z.testbit_ones_nonneg by lia.
  destruct (Z.leb_spec 28 i) as [Hhi|Hlo].
  - rewrite unpack_channel_testbit by lia.
    replace (i - 28 + 28) with i by lia.
    destruct (Z.ltb_spec i 32).
    + split_cmp; try lia; btauto.
    + rewrite (small_bits_high w 32 i) by lia. split_cmp; try lia; btauto.
  - destruct (Z.eqb_spec i 26) as [->|]; [rewrite Him; reflexivity|].
    destruct (Z.ltb_spec i 25); [simpl; btauto|].
    assert (i = 25 \/ i = 27) as [->| ->] by lia.
    + rewrite Hx. reflexivity.
    + rewrite Ha. reflexivity.
Qed.

Lemma value32_block_repack_witness :
  FIFO_PACK_VALUE32 (FIFO_UNPACK_CHANNEL 0x3400002A)
                    (FIFO_UNPACK_VALUE32_NOEXTRA 0x3400002A) = 0x3400002A.
Proof.
  apply (value32_block_repack 0x3400002A); [unfold uint32; lia | reflexivity..].
Defined.

(** X10. A 32-bit data header whose extra bit is clear is the block
    [FIFO_PACK_DATAMSG_HEADER] builds from its channel and its length. *)
Theorem datamsg_header_repack (w : Z) :
  uint32 w ->
  FIFO_IS_DATA w = true ->
  Z.testbit w FIFO_EXTRABIT_SHIFT = false ->
  FIFO_PACK_DATAMSG_HEADER (FIFO_UNPACK_CHANNEL w) (FIFO_UNPACK_DATALENGTH w) = w.
Proof.
  change FIFO_EXTRABIT_SHIFT with 25.
  intros Hw Hd Hx. unfold uint32 in Hw.
  rewrite is_data_bits in Hd. apply andb_true_iff in Hd.
  destruct Hd as [Ha Him]. apply negb_true_iff in Ha, Him.
  apply Z.bits_inj'. intros i Hi.
  rewrite pack_datamsg_header_testbit by lia.
  unfold FIFO_UNPACK_DATALENGTH. rewrite value32_mask_ones.
  rewrite Z.land_spec, Z.testbit_ones_nonneg by lia.
  destruct (Z.leb_spec 28 i) as [Hhi|Hlo].
  - rewrite unpack_channel_testbit by lia.
    replace (i - 28 + 28) with i by lia.
    destruct (Z.ltb_spec i 32).
    + split_cmp; try lia; btauto.
    + rewrite (small_bits_high w 32 i) by lia. split_cmp; try lia; btauto.
  - destruct (Z.ltb_spec i 25); [simpl; btauto|].
    assert (i = 25 \/ i = 26 \/ i = 27) as [->|[->| ->]] by lia.
    + rewrite Hx. reflexivity.
    + rewrite Him. reflexivity.
    + rewrite Ha. reflexivity.
Qed.

Lemma datamsg_header_repack_witness :
  FIFO_PACK_DATAMSG_HEADER (FIFO_UNPACK_CHANNEL 0x70000080)
                           (FIFO_UNPACK_DATALENGTH 0x70000080) = 0x70000080.
Proof.
  apply (datamsg_header_repack 0x70000080); [unfold uint32; lia | reflexivity..].
Defined.

(** X11. A 32-bit address block (address bit set, immediate bit clear)
    whose bits 25 and 24 are clear is the block [FIFO_PACK_ADDRESS] builds
    from its channel and its decoded address. *)
Theorem address_block_repack (w : Z) :
  uint32 w ->
  FIFO_IS_ADDRESS w = true ->
  FIFO_IS_SPECIAL_COMMAND w = false ->
  Z.testbit w 25 = false ->
  Z.testbit w 24 = false ->
  FIFO_PACK_ADDRESS (FIFO_UNPACK_CHANNEL w) (FIFO_UNPACK_ADDRESS w) = w.
Proof.
  intros Hw Ha Hs H25 H24. unfold uint32 in Hw.
  rewrite is_address_bit in Ha.
  rewrite is_special_command_bits, Ha in Hs. cbn [andb] in Hs.
  apply Z.bits_inj'. intros i Hi.
  rewrite pack_address_testbit by lia.
  rewrite unpack_address_lor.
  rewrite Z.lor_spec, Z.land_spec, Z.testbit_ones_nonneg by lia.
  change FIFO_ADDRESSBASE with (2 ^ 25). rewrite Z.pow2_bits_eqb by lia.
  destruct (Z.leb_spec 28 i) as [Hhi|Hlo].
  - rewrite unpack_channel_testbit by lia.
    replace (i - 28 + 28) with i by lia.
    destruct (Z.ltb_spec i 32).
    + split_cmp; try lia; btauto.
    + rewrite (small_bits_high w 32 i) by lia. split_cmp; try lia; btauto.
  - destruct (Z.eqb_spec i 27) as [->|]; [rewrite Ha; reflexivity|].
    destruct (Z.ltb_spec i 24).
    + destruct (Z.eqb_spec 25 i); [lia|]. simpl. btauto.
    + assert (i = 24 \/ i = 25 \/ i = 26) as [->|[->| ->]] by lia.
      * rewrite H24. reflexivity.
      * rewrite H25. reflexivity.
      * rewrite Hs. reflexivity.
Qed.

Lemma address_block_repack_witness :
  FIFO_PACK_ADDRESS (FIFO_UNPACK_CHANNEL 0x98345678)
                    (FIFO_UNPACK_ADDRESS 0x98345678) = 0x98345678.
Proof.
  apply (address_block_repack 0x98345678); [unfold uint32; lia | reflexivity..].
Defined.

(** ** The fit test and the one-block encoding *)

(** X12. [FIFO_VALUE32_NEEDEXTRA] is exactly the test for a lossy one-block
    encoding: for a 32-bit [v] and any channel, it is false if and only if
    the value read back from [FIFO_PACK_VALUE32 c v] is [v]. *)
Theorem value32_fits_iff_lossless (c v : Z) :
  uint32 v ->
  FIFO_VALUE32_NEEDEXTRA v = false <->
  FIFO_UNPACK_VALUE32_NOEXTRA (FIFO_PACK_VALUE32 c v) = v.
Proof.
  intros Hv. rewrite value32_needextra_div by exact Hv.
  rewrite unpack_pack_value32. unfold uint32 in Hv. unfold nonzero.
  rewrite negb_false_iff, Z.eqb_eq, Z.div_small_iff by lia.
  pose proof (Z.mod_pos_bound v (2 ^ 25) ltac:(lia)) as Hm.
  split.
  - intros H. apply Z.mod_small. lia.
  - intros H. lia.
Qed.

Lemma value32_fits_iff_lossless_witness :
  FIFO_VALUE32_NEEDEXTRA 0x2000000 = false <->
  FIFO_UNPACK_VALUE32_NOEXTRA (FIFO_PACK_VALUE32 4 0x2000000) = 0x2000000.
Proof. apply (value32_fits_iff_lossless 4 0x2000000). unfold uint32. lia. Defined.

(** X14. What the payload decoders return always fits in one block: for
    every block [w], [FIFO_UNPACK_VALUE32_NOEXTRA w] and
    [FIFO_UNPACK_DATALENGTH w] are below [2^25], and
    [FIFO_VALUE32_NEEDEXTRA] is false on them. *)
Theorem unpack_payload_fits (w : Z) :
  0 <= FIFO_UNPACK_VALUE32_NOEXTRA w < 2 ^ 25 /\
  0 <= FIFO_UNPACK_DATALENGTH w < 2 ^ 25 /\
  FIFO_VALUE32_NEEDEXTRA (FIFO_UNPACK_VALUE32_NOEXTRA w) = false /\
  FIFO_VALUE32_NEEDEXTRA (FIFO_UNPACK_DATALENGTH w) = false.
Proof.
  unfold FIFO_UNPACK_DATALENGTH, FIFO_UNPACK_VALUE32_NOEXTRA.
  rewrite value32_mask_ones, Z.land_ones by lia.
  pose proof (Z.mod_pos_bound w (2 ^ 25) ltac:(lia)) as Hm.
  assert (Hfit : FIFO_VALUE32_NEEDEXTRA (w mod 2 ^ 25) = false).
  { rewrite value32_needextra_div by (unfold uint32; lia).
    rewrite Z.div_small by lia. reflexivity. }
  repeat split; solve [lia | exact Hfit].
Qed.

(** ** Telling the encoders apart *)

(** X13. The four encoders never build the same block: whatever the
    channels and payloads, the blocks of [FIFO_PACK_VALUE32],
    [FIFO_PACK_VALUE32_EXTRA], [FIFO_PACK_ADDRESS] and
    [FIFO_PACK_DATAMSG_HEADER] are pairwise different. *)
Theorem encoders_disjoint (c1 c2 c3 c4 v a n : Z) :
  FIFO_PACK_VALUE32 c1 v <> FIFO_PACK_VALUE32_EXTRA c2 /\
  FIFO_PACK_VALUE32 c1 v <> FIFO_PACK_ADDRESS c3 a /\
  FIFO_PACK_VALUE32 c1 v <> FIFO_PACK_DATAMSG_HEADER c4 n /\
  FIFO_PACK_VALUE32_EXTRA c2 <> FIFO_PACK_ADDRESS c3 a /\
  FIFO_PACK_VALUE32_EXTRA c2 <> FIFO_PACK_DATAMSG_HEADER c4 n /\
  FIFO_PACK_ADDRESS c3 a <> FIFO_PACK_DATAMSG_HEADER c4 n.
Proof.
  assert (Hv25 : Z.testbit (FIFO_PACK_VALUE32 c1 v) 25 = false)
    by (rewrite pack_value32_testbit by lia; reflexivity).
  assert (Hv26 : Z.testbit (FIFO_PACK_VALUE32 c1 v) 26 = true)
    by (rewrite pack_value32_testbit by lia; reflexivity).
  assert (Hx25 : Z.testbit (FIFO_PACK_VALUE32_EXTRA c2) 25 = true)
    by (rewrite pack_value32_extra_testbit by lia; reflexivity).
  assert (Hx26 : Z.testbit (FIFO_PACK_VALUE32_EXTRA c2) 26 = true)
    by (rewrite pack_value32_extra_testbit by lia; reflexivity).
  assert (Ha26 : Z.testbit (FIFO_PACK_ADDRESS c3 a) 26 = false)
    by (rewrite pack_address_testbit by lia; reflexivity).
  assert (Ha27 : Z.testbit (FIFO_PACK_ADDRESS c3 a) 27 = true)
    by (rewrite pack_address_testbit by lia; reflexivity).
  assert (Hd26 : Z.testbit (FIFO_PACK_DATAMSG_HEADER c4 n) 26 = false)
    by (rewrite pack_datamsg_header_testbit by lia; reflexivity).
  assert (Hd27 : Z.testbit (FIFO_PACK_DATAMSG_HEADER c4 n) 27 = false)
    by (rewrite pack_datamsg_header_testbit by lia; reflexivity).
  repeat split; intros Heq.
  - rewrite Heq, Hx25 in Hv25. discriminate.
  - rewrite Heq, Ha26 in Hv26. discriminate.
  - rewrite Heq, Hd26 in Hv26. discriminate.
  - rewrite Heq, Ha26 in Hx26. discriminate.
  - rewrite Heq, Hd26 in Hx26. discriminate.
  - rewrite Heq, Hd27 in Ha27. discriminate.
Qed.

(** ** The exit path on the ARM9 and on either CPU *)

(** X15. The exit path on the ARM9.  From the third step on
    [__libnds_exit(rc)] is in its final loop; it has called
    [systemErrorExit(rc)] exactly when [rc] is not zero, then fetched the
    boot stub, then called the stub's [arm9reboot] when the signature is
    [BOOTSIG] and [systemShutDown()] otherwise.  It never calls
    [fifoInternalSend], at any moment. *)
Theorem libnds_exit_arm9 (BOOTSIG rc bootsig : Z) (k : nat) :
  let final := __libnds_exit BOOTSIG ARM9 rc bootsig (3 + k) in
  let hook := if rc =? 0 then [] else [systemErrorExit rc] in
  pc final = at_spin /\
  (bootsig = BOOTSIG -> calls final = hook ++ [transferRegion; arm9reboot]) /\
  (bootsig <> BOOTSIG -> calls final = hook ++ [transferRegion; systemShutDown]) /\
  (forall m : nat,
      sent_words (calls (__libnds_exit BOOTSIG ARM9 rc bootsig m)) = []).
Proof.
  intros final hook. subst final hook.
  rewrite libnds_exit_stable.
  split; [rewrite libnds_exit_3; reflexivity|].
  split; [|split].
  - intros Hsig. apply Z.eqb_eq in Hsig.
    rewrite libnds_exit_3, Hsig. reflexivity.
  - intros Hsig. apply Z.eqb_neq in Hsig.
    rewrite libnds_exit_3, Hsig. reflexivity.
  - intros m.
    destruct (libnds_exit_calls_prefix BOOTSIG ARM9 rc bootsig m) as [l Hl].
    apply (f_equal sent_words) in Hl.
    rewrite sent_words_app, libnds_exit_3 in Hl. simpl calls in Hl.
    rewrite sent_words_app in Hl.
    destruct (sent_words (calls (__libnds_exit BOOTSIG ARM9 rc bootsig m)))
      as [|x xs]; [reflexivity|].
    destruct (rc =? 0), (bootsig =? BOOTSIG); discriminate Hl.
Qed.

Lemma libnds_exit_arm9_witness :
  calls (__libnds_exit 7 ARM9 2 7 (3 + 4)) =
    [systemErrorExit 2; transferRegion; arm9reboot] /\
  calls (__libnds_exit 7 ARM9 0 9 (3 + 4)) = [transferRegion; systemShutDown].
Proof.
  split.
  - apply (proj1 (proj2 (libnds_exit_arm9 7 2 7 4))). reflexivity.
  - apply (proj1 (proj2 (proj2 (libnds_exit_arm9 7 0 9 4)))). lia.
Defined.

Lemma libnds_exit_calls_incl
      (BOOTSIG : Z) (self : cpu) (rc bootsig : Z) (m : nat) (x : call) :
  In x (calls (__libnds_exit BOOTSIG self rc bootsig m)) ->
  In x (calls (__libnds_exit BOOTSIG self rc bootsig 3)).
Proof.
  intros Hin.
  destruct (libnds_exit_calls_prefix BOOTSIG self rc bootsig m) as [l Hl].
  rewrite <- Hl. apply in_or_app. left. exact Hin.
Qed.

(** X16. The signature gates the exit path on both CPUs, at every moment:
    a reset is only ever asked for ([arm9reboot] on the ARM9, a word given
    to [fifoInternalSend] on the ARM7) when the boot stub carries [BOOTSIG],
    [systemShutDown] is only ever called when it does not, so the two never
    happen in one run; and no more than three calls are made. *)
Theorem libnds_exit_gated (BOOTSIG : Z) (self : cpu) (rc bootsig : Z) (m : nat) :
  let s := __libnds_exit BOOTSIG self rc bootsig m in
  (In arm9reboot (calls s) -> self = ARM9 /\ bootsig = BOOTSIG) /\
  (sent_words (calls s) <> [] -> self = ARM7 /\ bootsig = BOOTSIG) /\
  (In systemShutDown (calls s) -> bootsig <> BOOTSIG) /\
  (length (calls s) <= 3)%nat.
Proof.
  intros s. subst s.
  destruct (libnds_exit_calls_prefix BOOTSIG self rc bootsig m) as [l Hl].
  pose proof (libnds_exit_calls_incl BOOTSIG self rc bootsig m) as Hincl.
  rewrite libnds_exit_3 in Hl, Hincl. simpl calls in Hl, Hincl.
  split; [|split; [|split]].
  - intros Hin. apply Hincl in Hin.
    destruct (Z.eqb_spec bootsig BOOTSIG), (rc =? 0), self; simpl in Hin;
      intuition (try discriminate; auto).
  - intros Hsent.
    apply (f_equal sent_words) in Hl. rewrite !sent_words_app in Hl.
    destruct (Z.eqb_spec bootsig BOOTSIG), (rc =? 0), self; simpl in Hl;
      try (split; [reflexivity|assumption]);
      destruct (sent_words (calls (__libnds_exit BOOTSIG _ rc bootsig m)));
      solve [contradiction | discriminate Hl].
  - intros Hin. apply Hincl in Hin.
    destruct (Z.eqb_spec bootsig BOOTSIG), (rc =? 0), self; simpl in Hin;
      intuition (try discriminate; auto).
  - apply (f_equal (@length call)) in Hl. rewrite !length_app in Hl.
    destruct (rc =? 0); simpl in Hl; lia.
Qed.

Lemma libnds_exit_gated_witness :
  sent_words (calls (__libnds_exit 7 ARM7 1 7 5)) = [0x0C04000B] /\
  (ARM7 = ARM7 /\ 7 = 7) /\
  In systemShutDown (calls (__libnds_exit 7 ARM9 0 8 5)) /\
  8 <> 7.
Proof.
  split; [reflexivity|]. split.
  - apply (proj1 (proj2 (libnds_exit_gated 7 ARM7 1 7 5))).
    vm_compute. discriminate.
  - split; [vm_compute; auto|].
    apply (proj1 (proj2 (proj2 (libnds_exit_gated 7 ARM9 0 8 5)))).
    vm_compute. auto.
Defined.
